(** * PiStepper: stepper-motor driver over libgpiod

  A shallow embedding of [PiStepper.cpp] / [PiStepper.h].  The class
  fields become a record, every member function becomes a function on
  that record, the GPIO backend becomes a log of events plus an oracle
  for the two limit-switch inputs, and the C++ arithmetic ([int],
  [float], [double], [useconds_t]) is written out with its rounding,
  truncation and wrap-around. *)

From Stdlib Require Import ZArith List Bool Lia String QArith DecimalString.
From Stdlib Require Import SpecFloat.
Import ListNotations.
Local Open Scope Z_scope.

(** ** Machine integers *)

Module CInt.

Definition INT_MIN : Z := - 2 ^ 31.
Definition INT_MAX : Z := 2 ^ 31 - 1.
Definition UINT_MAX : Z := 2 ^ 32 - 1.

(** Two's-complement wrap-around of a 32-bit [int] (what the target
    does on signed overflow). *)
Definition wrap32 (z : Z) : Z := (z + 2 ^ 31) mod 2 ^ 32 - 2 ^ 31.

Definition in_int (z : Z) : Prop := INT_MIN <= z <= INT_MAX.

End CInt.
Import CInt.

(** ** Floating point

  [float] is IEEE binary32 and [double] is IEEE binary64, both with
  round-to-nearest-even; the operations are those of [SpecFloat] at
  precision 24 / exponent 128 and precision 53 / exponent 1024. *)

Module CFloat.

Definition float := spec_float.
Definition double := spec_float.

Definition f32_mul : float -> float -> float := SFmul 24 128.
Definition f32_div : float -> float -> float := SFdiv 24 128.
Definition f64_mul : double -> double -> double := SFmul 53 1024.
Definition f64_div : double -> double -> double := SFdiv 53 1024.

(** Integer to floating conversions ([int] operands of a mixed
    expression, and integer literals). *)
Definition f32_of_int (z : Z) : float := binary_normalize 24 128 z 0 false.
Definition f64_of_int (z : Z) : double := binary_normalize 53 1024 z 0 false.

(** [float] to [double] promotion (exact) and [double] to [float]
    narrowing (rounds). *)
Definition f64_of_f32 (x : float) : double :=
  match x with
  | S754_finite s m e => binary_round 53 1024 s m e
  | _ => x
  end.

Definition f32_of_f64 (x : double) : float :=
  match x with
  | S754_finite s m e => binary_round 24 128 s m e
  | _ => x
  end.

(** Integer part of [m * 2^e], towards zero. *)
Definition trunc_mag (m : positive) (e : Z) : Z :=
  if 0 <=? e then Z.pos m * 2 ^ e else Z.pos m / 2 ^ (- e).

(** [float] to [useconds_t] (unsigned 32 bit), as at the call
    [usleep(stepDelay / 2)]: the fraction is dropped.  Values that do
    not fit are outside what C++ defines; the ARM conversion
    instruction of the target saturates and sends NaN to 0. *)
Definition f32_to_uint (x : float) : Z :=
  match x with
  | S754_zero _ => 0
  | S754_nan => 0
  | S754_infinity s => if s then 0 else UINT_MAX
  | S754_finite s m e => if s then 0 else Z.min (trunc_mag m e) UINT_MAX
  end.

(** [float] to [int], as at [int steps = std::round(...)]; same
    convention outside the range. *)
Definition f32_to_int (x : float) : Z :=
  match x with
  | S754_zero _ => 0
  | S754_nan => 0
  | S754_infinity s => if s then INT_MIN else INT_MAX
  | S754_finite s m e =>
      if s then Z.max (- trunc_mag m e) INT_MIN
      else Z.min (trunc_mag m e) INT_MAX
  end.

(** Magnitude of [m * 2^e] rounded to the nearest integer, halves
    going up in magnitude. *)
Definition round_mag (m : positive) (e : Z) : Z :=
  if 0 <=? e then Z.pos m * 2 ^ e
  else (Z.pos m + 2 ^ (- e - 1)) / 2 ^ (- e).

(** [std::round] on [float]: nearest integral value, halfway cases
    away from zero; the sign is kept, also on a zero result. *)
Definition roundf (x : float) : float :=
  match x with
  | S754_finite s m e =>
      if 0 <=? e then x
      else binary_normalize 24 128
             (if s then - round_mag m e else round_mag m e) 0 s
  | _ => x
  end.

(** The exact rational value of a finite float (0 for the others);
    only used to compare with formulas over the rationals. *)
Definition f32_value (x : float) : Q :=
  match x with
  | S754_finite s m e =>
      let q := if 0 <=? e then inject_Z (Z.pos m * 2 ^ e)
               else Qmake (Z.pos m) (Z.to_pos (2 ^ (- e))) in
      if s then Qopp q else q
  | _ => 0%Q
  end.

End CFloat.
Import CFloat.

(** ** The GPIO backend and the console

    libgpiod and [usleep] are external: a call to them is recorded as
    an event.  The two inputs are answered by an oracle: the [k]-th
    read of a limit switch returns what the [World] holds at index
    [k], so every sequence of readings can be represented. *)

Inductive Line : Type :=
| step_signal
| dir_signal
| enable_signal
| limit_switch_bottom
| limit_switch_top.

Inductive Event : Type :=
| RequestOutput (l : Line) (initial : Z)   (* gpiod_line_request_output *)
| RequestInput (l : Line)                  (* gpiod_line_request_input *)
| SetValue (l : Line) (v : Z)              (* gpiod_line_set_value *)
| GetValue (l : Line) (v : Z)              (* gpiod_line_get_value, with its result *)
| Usleep (us : Z)                          (* usleep, argument in microseconds *)
| Cout (msg : string)                      (* std::cout << ... << std::endl *)
| LockGate                                 (* lock_guard on gpioMutex is built *)
| UnlockGate.                              (* ... and destroyed *)

Record World : Type := {
  top_at : nat -> Z;
  bottom_at : nat -> Z
}.

Definition LIMIT_SWITCH_BOTTOM_PIN : Z := 21.
Definition LIMIT_SWITCH_TOP_PIN : Z := 20.
Definition FULL_COUNT_RANGE : Z := 1700.

(** ** The object

    The private data members of [class PiStepper], then the state of
    the backend as seen from this object: the level last written to
    each output line, how many times each input has been read, and the
    log of calls. *)

Record PiStepper : Type := mkPiStepper {
  _stepPin : Z;
  _dirPin : Z;
  _enablePin : Z;
  _stepsPerRevolution : Z;
  _microstepping : Z;
  _speed : float;
  _acceleration : float;
  _currentStepCount : Z;
  _isMoving : bool;
  step_level : Z;
  dir_level : Z;
  enable_level : Z;
  top_reads : nat;
  bottom_reads : nat;
  trace : list Event
}.

Definition with_speed (v : float) (s : PiStepper) : PiStepper :=
  mkPiStepper (_stepPin s) (_dirPin s) (_enablePin s) (_stepsPerRevolution s)
    (_microstepping s) v (_acceleration s) (_currentStepCount s) (_isMoving s)
    (step_level s) (dir_level s) (enable_level s) (top_reads s)
    (bottom_reads s) (trace s).

Definition with_acceleration (v : float) (s : PiStepper) : PiStepper :=
  mkPiStepper (_stepPin s) (_dirPin s) (_enablePin s) (_stepsPerRevolution s)
    (_microstepping s) (_speed s) v (_currentStepCount s) (_isMoving s)
    (step_level s) (dir_level s) (enable_level s) (top_reads s)
    (bottom_reads s) (trace s).


Definition with_count (v : Z) (s : PiStepper) : PiStepper :=
  mkPiStepper (_stepPin s) (_dirPin s) (_enablePin s) (_stepsPerRevolution s)
    (_microstepping s) (_speed s) (_acceleration s) v (_isMoving s)
    (step_level s) (dir_level s) (enable_level s) (top_reads s)
    (bottom_reads s) (trace s).

Definition with_moving (v : bool) (s : PiStepper) : PiStepper :=
  mkPiStepper (_stepPin s) (_dirPin s) (_enablePin s) (_stepsPerRevolution s)
    (_microstepping s) (_speed s) (_acceleration s) (_currentStepCount s) v
    (step_level s) (dir_level s) (enable_level s) (top_reads s)
    (bottom_reads s) (trace s).

(** One more call in the log (the log is in the order of the calls). *)
Definition emit (e : Event) (s : PiStepper) : PiStepper :=
  mkPiStepper (_stepPin s) (_dirPin s) (_enablePin s) (_stepsPerRevolution s)
    (_microstepping s) (_speed s) (_acceleration s) (_currentStepCount s)
    (_isMoving s) (step_level s) (dir_level s) (enable_level s) (top_reads s)
    (bottom_reads s) (trace s ++ [e]).

Definition with_level (l : Line) (v : Z) (s : PiStepper) : PiStepper :=
  mkPiStepper (_stepPin s) (_dirPin s) (_enablePin s) (_stepsPerRevolution s)
    (_microstepping s) (_speed s) (_acceleration s) (_currentStepCount s)
    (_isMoving s)
    (match l with step_signal => v | _ => step_level s end)
    (match l with dir_signal => v | _ => dir_level s end)
    (match l with enable_signal => v | _ => enable_level s end)
    (top_reads s) (bottom_reads s) (trace s).

Definition with_reads (l : Line) (s : PiStepper) : PiStepper :=
  mkPiStepper (_stepPin s) (_dirPin s) (_enablePin s) (_stepsPerRevolution s)
    (_microstepping s) (_speed s) (_acceleration s) (_currentStepCount s)
    (_isMoving s) (step_level s) (dir_level s) (enable_level s)
    (match l with limit_switch_top => S (top_reads s) | _ => top_reads s end)
    (match l with limit_switch_bottom => S (bottom_reads s) | _ => bottom_reads s end)
    (trace s).

(** *** Backend calls *)

Definition gpiod_line_set_value (l : Line) (v : Z) (s : PiStepper) : PiStepper :=
  emit (SetValue l v) (with_level l v s).

(** What the next read of line [l] returns: the oracle for the two
    inputs, the level last written for an output. *)
Definition line_value (w : World) (l : Line) (s : PiStepper) : Z :=
  match l with
  | limit_switch_top => top_at w (top_reads s)
  | limit_switch_bottom => bottom_at w (bottom_reads s)
  | step_signal => step_level s
  | dir_signal => dir_level s
  | enable_signal => enable_level s
  end.

Definition gpiod_line_get_value (w : World) (l : Line) (s : PiStepper)
  : Z * PiStepper :=
  let v := line_value w l s in
  (v, emit (GetValue l v) (with_reads l s)).

Definition usleep (us : Z) (s : PiStepper) : PiStepper := emit (Usleep us) s.

Definition cout (msg : string) (s : PiStepper) : PiStepper := emit (Cout msg) s.

Definition lock_gpioMutex (s : PiStepper) : PiStepper := emit LockGate s.
Definition unlock_gpioMutex (s : PiStepper) : PiStepper := emit UnlockGate s.

(** ** Member functions *)

Definition enable (s : PiStepper) : PiStepper :=
  gpiod_line_set_value enable_signal 1 s.

Definition disable (s : PiStepper) : PiStepper :=
  gpiod_line_set_value enable_signal 0 s.

(** The constructor: member initialisers, the five line requests, then
    [disable()].  Nothing is checked on the way. *)
Definition PiStepper_ctor (stepPin dirPin enablePin : Z)
  (stepsPerRevolution microstepping : Z) : PiStepper :=
  let s0 := mkPiStepper stepPin dirPin enablePin stepsPerRevolution
              microstepping (f32_of_int 20) (f32_of_int 80) 0 false
              0 0 1 O O
              [ RequestOutput step_signal 0;
                RequestOutput dir_signal 0;
                RequestOutput enable_signal 1;
                RequestInput limit_switch_bottom;
                RequestInput limit_switch_top ] in
  disable s0.

Definition setSpeed (speed : float) (s : PiStepper) : PiStepper :=
  with_speed speed s.

Definition setAcceleration (acceleration : float) (s : PiStepper) : PiStepper :=
  with_acceleration acceleration s.


Definition getCurrentStepCount (s : PiStepper) : Z := _currentStepCount s.

(** [60.0 * 1000000 / (_speed * _stepsPerRevolution * _microstepping)]:
    the product is left-associated in [float], the quotient is taken
    in [double] and narrowed to [float] by the initialisation of
    [float stepDelay]. *)
Definition stepDelay_of (speed : float) (stepsPerRevolution microstepping : Z)
  : float :=
  f32_of_f64
    (f64_div (f64_mul (f64_of_int 60) (f64_of_int 1000000))
       (f64_of_f32
          (f32_mul (f32_mul speed (f32_of_int stepsPerRevolution))
             (f32_of_int microstepping)))).

(** The argument of [usleep(stepDelay / 2)]. *)
Definition half_delay (stepDelay : float) : Z :=
  f32_to_uint (f32_div stepDelay (f32_of_int 2)).

(** One step pulse: line high, sleep, line low, sleep. *)
Definition pulse (stepDelay : float) (s : PiStepper) : PiStepper :=
  let s1 := gpiod_line_set_value step_signal 1 s in
  let s2 := usleep (half_delay stepDelay) s1 in
  let s3 := gpiod_line_set_value step_signal 0 s2 in
  usleep (half_delay stepDelay) s3.

(** The [for] loop of [internalMoveSteps], with [k] iterations left
    ([i] runs from 0 while [i < steps], so there are [Z.to_nat steps]
    of them unless a [break] is taken).  In each guard the line is read
    first and the direction compared second. *)
Fixpoint internalMoveSteps_loop (w : World) (direction : Z) (stepDelay : float)
  (k : nat) (s : PiStepper) : PiStepper :=
  match k with
  | O => s
  | S k' =>
      let (top, s1) := gpiod_line_get_value w limit_switch_top s in
      if (top =? 0) && (direction =? 1) then
        cout "Top limit switch triggered" s1
      else
        let (bottom, s2) := gpiod_line_get_value w limit_switch_bottom s1 in
        if (bottom =? 0) && (direction =? 0) then
          cout "Bottom limit switch triggered" s2
        else
          let s3 := pulse stepDelay s2 in
          let s4 :=
            if direction =? 0
            then with_count (wrap32 (_currentStepCount s3 - 1)) s3
            else with_count (wrap32 (_currentStepCount s3 + 1)) s3 in
          internalMoveSteps_loop w direction stepDelay k' s4
  end.

Definition internalMoveSteps (w : World) (steps direction : Z) (s : PiStepper)
  : PiStepper :=
  let s1 := enable s in
  let s2 := gpiod_line_set_value dir_signal direction s1 in
  let stepDelay :=
    stepDelay_of (_speed s2) (_stepsPerRevolution s2) (_microstepping s2) in
  let s3 := internalMoveSteps_loop w direction stepDelay (Z.to_nat steps) s2 in
  disable s3.

Definition moveSteps (w : World) (steps direction : Z) (s : PiStepper)
  : PiStepper :=
  let s1 := lock_gpioMutex s in
  let s2 := with_moving true s1 in
  let s3 := internalMoveSteps w steps direction s2 in
  let s4 := with_moving false s3 in
  unlock_gpioMutex s4.

Definition string_of_Z (z : Z) : string :=
  DecimalString.NilZero.string_of_int (Z.to_int z).

(** [std::round(angle * ((_stepsPerRevolution * _microstepping) / 360.0f))]
    converted to [int]. *)
Definition moveAngle_steps (angle : float) (stepsPerRevolution microstepping : Z)
  : Z :=
  f32_to_int
    (roundf
       (f32_mul angle
          (f32_div (f32_of_int (wrap32 (stepsPerRevolution * microstepping)))
             (f32_of_int 360)))).


(** The body of the [while] loop of [homeMotor]. *)
Definition homeMotor_body (stepDelay : float) (s : PiStepper) : PiStepper :=
  pulse stepDelay s.

(** The [while] loop of [homeMotor]: nothing bounds it in the source,
    so the model takes fuel and answers [None] when it runs out. *)
Fixpoint homeMotor_loop (w : World) (stepDelay : float) (fuel : nat)
  (s : PiStepper) : option PiStepper :=
  match fuel with
  | O => None
  | S fuel' =>
      let (bottom, s1) := gpiod_line_get_value w limit_switch_bottom s in
      if bottom =? 1
      then homeMotor_loop w stepDelay fuel' (homeMotor_body stepDelay s1)
      else Some s1
  end.

Definition homeMotor (w : World) (fuel : nat) (s : PiStepper)
  : option PiStepper :=
  let s1 := enable s in
  let direction := 0 in
  let s2 := gpiod_line_set_value dir_signal direction s1 in
  let stepDelay :=
    stepDelay_of (_speed s2) (_stepsPerRevolution s2) (_microstepping s2) in
  match homeMotor_loop w stepDelay fuel s2 with
  | None => None
  | Some s3 => Some (disable (with_count 0 s3))
  end.

Definition moveStepsOverDuration_rpm (steps durationSeconds : Z)
  (stepsPerRevolution microstepping : Z) : float :=
  let stepsPerSecond := f32_div (f32_of_int steps) (f32_of_int durationSeconds) in
  f32_div (f32_mul stepsPerSecond (f32_of_int 60))
    (f32_of_int (wrap32 (stepsPerRevolution * microstepping))).

Definition moveStepsOverDuration (w : World) (steps durationSeconds : Z)
  (s : PiStepper) : PiStepper :=
  let rpm :=
    moveStepsOverDuration_rpm steps durationSeconds
      (_stepsPerRevolution s) (_microstepping s) in
  let s1 := setSpeed rpm s in
  moveSteps w steps 1 s1.

(** [(static_cast<float>(steps) / (_stepsPerRevolution * _microstepping)) * 360.0f] *)
Definition stepsToAngle (steps : Z) (s : PiStepper) : float :=
  f32_mul
    (f32_div (f32_of_int steps)
       (f32_of_int (wrap32 (_stepsPerRevolution s * _microstepping s))))
    (f32_of_int 360).

(** [moveStepsAsync] starts a detached thread that runs [moveSteps]
    and then the callback; on that thread the call is the [moveSteps]
    above, and the thread itself has no counterpart here. *)

Definition stopMovement (s : PiStepper) : PiStepper :=
  let s1 := lock_gpioMutex s in
  let s2 := with_moving false s1 in
  let s3 := disable s2 in
  unlock_gpioMutex s3.

Definition emergencyStop (s : PiStepper) : PiStepper :=
  let s1 := lock_gpioMutex s in
  let s2 := with_moving false s1 in
  let s3 := disable s2 in
  let s4 := with_count 0 s3 in
  let s5 := cout "Emergency Stop Activated!" s4 in
  unlock_gpioMutex s5.

Definition calibrate (w : World) (fuel : nat) (s : PiStepper)
  : option PiStepper :=
  match homeMotor w fuel s with
  | None => None
  | Some s1 =>
      let s2 := moveSteps w FULL_COUNT_RANGE 1 s1 in
      Some (cout ("Calibration complete. Full range: "
                    ++ string_of_Z (_currentStepCount s2) ++ " steps.")%string s2)
  end.

(** ** Reading the log *)

(** The events a call added to the log. *)
Definition since (s s' : PiStepper) : list Event :=
  skipn (List.length (trace s)) (trace s').

Definition is_rising_edge (e : Event) : bool :=
  match e with
  | SetValue step_signal 1 => true
  | _ => false
  end.

(** Number of step pulses in a log: rising edges of the step line. *)
Definition pulses (tr : list Event) : nat :=
  List.length (filter is_rising_edge tr).

(** The pulses of a log with the two sleeps of each one: the time the
    step line is held high and the time it is held low, in
    microseconds. *)
Fixpoint pulse_train (tr : list Event) : list (Z * Z) :=
  match tr with
  | SetValue step_signal 1 :: tr1 =>
      match tr1 with
      | Usleep high :: SetValue step_signal 0 :: Usleep low :: _ =>
          (high, low) :: pulse_train tr1
      | _ => pulse_train tr1
      end
  | _ :: tr1 => pulse_train tr1
  | [] => []
  end.

Definition is_read (e : Event) : bool :=
  match e with
  | GetValue limit_switch_top _ => true
  | GetValue limit_switch_bottom _ => true
  | _ => false
  end.

(** The switches never report 0 / always report 1. *)
Definition clear_world : World := {| top_at := fun _ => 1; bottom_at := fun _ => 1 |}.

Definition default_stepper : PiStepper := PiStepper_ctor 27 17 22 200 8.

(** ** Vocabulary of the statements *)

(** A stretch of log whose pulses all sleep [h] microseconds high and
    [h] low, whatever comes after it. *)
Definition uniform (h : Z) (evs : list Event) : Prop :=
  forall tl, pulse_train (evs ++ tl) = repeat (h, h) (pulses evs) ++ pulse_train tl.

Definition pulse_events (stepDelay : float) : list Event :=
  [ SetValue step_signal 1; Usleep (half_delay stepDelay);
    SetValue step_signal 0; Usleep (half_delay stepDelay) ].

(** What one counted pulse does to [_currentStepCount]. *)
Definition count_step (direction : Z) (c : Z) : Z :=
  if direction =? 0 then wrap32 (c - 1) else wrap32 (c + 1).

(** Everything a pulse loop leaves alone. *)
Record frame (s s' : PiStepper) : Prop := {
  frame_stepPin : _stepPin s' = _stepPin s;
  frame_dirPin : _dirPin s' = _dirPin s;
  frame_enablePin : _enablePin s' = _enablePin s;
  frame_spr : _stepsPerRevolution s' = _stepsPerRevolution s;
  frame_micro : _microstepping s' = _microstepping s;
  frame_speed : _speed s' = _speed s;
  frame_acceleration : _acceleration s' = _acceleration s;
  frame_moving : _isMoving s' = _isMoving s;
  frame_dir : dir_level s' = dir_level s;
  frame_enable : enable_level s' = enable_level s
}.

(** No switch on the side of travel reports 0 at any of the next [k]
    reads: nothing can interrupt a move of [k] steps. *)
Definition unobstructed (w : World) (direction : Z) (s : PiStepper) (k : nat) : Prop :=
  forall i, (i < k)%nat ->
    (direction = 1 -> top_at w (top_reads s + i) <> 0) /\
    (direction = 0 -> bottom_at w (bottom_reads s + i) <> 0).

(** The log of one iteration that takes no [break], the switches being
    read for the [t]-th and [b]-th time, and of [k] such iterations. *)
Definition iteration_log (w : World) (stepDelay : float) (t b : nat) : list Event :=
  [ GetValue limit_switch_top (top_at w t);
    GetValue limit_switch_bottom (bottom_at w b) ] ++ pulse_events stepDelay.

Fixpoint full_log (w : World) (stepDelay : float) (t b : nat) (k : nat) : list Event :=
  match k with
  | O => []
  | S k' => iteration_log w stepDelay t b ++ full_log w stepDelay (S t) (S b) k'
  end.

(** Number of reads of a limit switch in a log. *)
Definition limit_reads (tr : list Event) : nat := List.length (filter is_read tr).

Definition stepDelay_now (s : PiStepper) : float :=
  stepDelay_of (_speed s) (_stepsPerRevolution s) (_microstepping s).

(** The log of a whole [moveSteps] call: the gate, the enable and
    direction lines, the pulse loop, the enable line, the gate. *)
Definition moveSteps_log (direction : Z) (evs : list Event) : list Event :=
  [LockGate; SetValue enable_signal 1; SetValue dir_signal direction]
    ++ evs ++ [SetValue enable_signal 0; UnlockGate].

(** The delay of the specification, over the rationals. *)
Definition spec_pulse_delay (speed : Q) (stepsPerRevolution microstepping : Z) : Q :=
  (60000000 / (speed * inject_Z stepsPerRevolution * inject_Z microstepping))%Q.

(** A pulse as the specification words it: each half lasts half of
    [spec_pulse_delay]. *)
Definition spec_pulse (speed : Q) (stepsPerRevolution microstepping : Z)
  (hl : Z * Z) : Prop :=
  (inject_Z (fst hl) == spec_pulse_delay speed stepsPerRevolution microstepping / 2)%Q /\
  (inject_Z (snd hl) == spec_pulse_delay speed stepsPerRevolution microstepping / 2)%Q.

Definition top_blocked_world : World := {| top_at := fun _ => 0; bottom_at := fun _ => 1 |}.

(** The bottom switch reports 1 twice, then 0. *)
Definition homing_world : World :=
  {| top_at := fun _ => 1; bottom_at := fun k => if (k <? 2)%nat then 1 else 0 |}.



(** * Proofs *)

(** ** Machine integers *)

Lemma wrap32_range z : in_int (wrap32 z).
Proof.
  unfold in_int, wrap32, INT_MIN, INT_MAX.
  pose proof (Z.mod_pos_bound (z + 2 ^ 31) (2 ^ 32) ltac:(lia)). lia.
Qed.

Lemma wrap32_id z : in_int z -> wrap32 z = z.
Proof.
  unfold in_int, wrap32, INT_MIN, INT_MAX. intros H.
  rewrite Z.mod_small; lia.
Qed.

Lemma wrap32_add_l a b : wrap32 (wrap32 a + b) = wrap32 (a + b).
Proof.
  unfold wrap32.
  replace ((a + 2 ^ 31) mod 2 ^ 32 - 2 ^ 31 + b + 2 ^ 31)
    with ((a + 2 ^ 31) mod 2 ^ 32 + b) by lia.
  replace (a + b + 2 ^ 31) with ((a + 2 ^ 31) + b) by lia.
  rewrite Z.add_mod_idemp_l by lia. reflexivity.
Qed.

(** ** The arithmetic on the values of the driver *)

(** The constructor default, 20 RPM at 200 x 8: 1875 microseconds, and
    937 for each [usleep]. *)
Example stepDelay_default :
  stepDelay_of (f32_of_int 20) 200 8 = f32_of_int 1875 /\
  half_delay (f32_of_int 1875) = 937.
Proof. vm_compute. split; reflexivity. Qed.

(** [setSpeed(60)] as in the driver program: 625 microseconds, 312 for
    each [usleep]. *)
Example stepDelay_60rpm :
  stepDelay_of (f32_of_int 60) 200 8 = f32_of_int 625 /\
  half_delay (f32_of_int 625) = 312.
Proof. vm_compute. split; reflexivity. Qed.

(** 7 RPM: the quotient 5357.142857... is not a [float]; the nearest
    one is 10971429 * 2^-11 = 5357.14306640625. *)
Example stepDelay_7rpm :
  stepDelay_of (f32_of_int 7) 200 8 = S754_finite false 10971429 (-11) /\
  half_delay (S754_finite false 10971429 (-11)) = 2678.
Proof. vm_compute. split; reflexivity. Qed.

(** 1600 / 360 in [float] and the step counts of a quarter turn, a
    full turn and a quarter turn backwards at 200 x 8. *)
Example moveAngle_steps_200x8 :
  f32_div (f32_of_int 1600) (f32_of_int 360) = S754_finite false 9320676 (-21) /\
  moveAngle_steps (f32_of_int 90) 200 8 = 400 /\
  moveAngle_steps (f32_of_int 360) 200 8 = 1600 /\
  moveAngle_steps (f32_of_int (-90)) 200 8 = -400.
Proof. vm_compute. repeat split; reflexivity. Qed.

(** ** Basic facts about the log *)

(** Closes a goal that compares two logs built from the same events. *)
Ltac same_log := cbn; rewrite <- ?app_assoc; reflexivity.

Lemma since_app (s s' : PiStepper) (evs : list Event) :
  trace s' = trace s ++ evs -> since s s' = evs.
Proof.
  unfold since. intros ->.
  rewrite skipn_app, skipn_all, Nat.sub_diag. reflexivity.
Qed.

Lemma pulses_app (a b : list Event) : pulses (a ++ b) = (pulses a + pulses b)%nat.
Proof. unfold pulses. rewrite filter_app, length_app. reflexivity. Qed.

Lemma uniform_nil h : uniform h [].
Proof. intros tl. reflexivity. Qed.

Lemma uniform_app h a b : uniform h a -> uniform h b -> uniform h (a ++ b).
Proof.
  intros Ha Hb tl. rewrite <- app_assoc, Ha, Hb, pulses_app, repeat_app, app_assoc.
  reflexivity.
Qed.

Lemma uniform_train h evs : uniform h evs -> pulse_train evs = repeat (h, h) (pulses evs).
Proof. intros H. specialize (H []). rewrite !app_nil_r in H. exact H. Qed.

Lemma frame_refl s : frame s s.
Proof. constructor; reflexivity. Qed.

Lemma frame_trans s1 s2 s3 : frame s1 s2 -> frame s2 s3 -> frame s1 s3.
Proof. intros [] []. constructor; congruence. Qed.

Lemma iter_count_wrap d n c :
  in_int c ->
  Nat.iter n (count_step d) c =
  wrap32 (if d =? 0 then c - Z.of_nat n else c + Z.of_nat n).
Proof.
  intros Hc. induction n as [|n IH].
  - simpl. destruct (d =? 0); rewrite ?Z.sub_0_r, ?Z.add_0_r; symmetry; apply wrap32_id; exact Hc.
  - rewrite Nat.iter_succ, IH. unfold count_step.
    destruct (d =? 0).
    + replace (wrap32 (c - Z.of_nat n) - 1) with (wrap32 (c - Z.of_nat n) + -1) by lia.
      rewrite wrap32_add_l. f_equal. lia.
    + rewrite wrap32_add_l. f_equal. lia.
Qed.

Lemma pulses_full_log w h t b k : pulses (full_log w h t b k) = k.
Proof.
  revert t b. induction k as [|k IH]; intros t b; [reflexivity|].
  cbn [full_log]. rewrite pulses_app, IH. reflexivity.
Qed.

Lemma limit_reads_full_log w h t b k : limit_reads (full_log w h t b k) = (2 * k)%nat.
Proof.
  revert t b. induction k as [|k IH]; intros t b; [reflexivity|].
  cbn [full_log]. unfold limit_reads in *. rewrite filter_app, length_app, IH.
  cbn. lia.
Qed.

Lemma guard_false (v direction d0 : Z) :
  (direction = d0 -> v <> 0) -> (v =? 0) && (direction =? d0) = false.
Proof.
  intros H. destruct (Z.eqb_spec direction d0) as [E|E].
  - rewrite andb_true_r. apply Z.eqb_neq. auto.
  - apply andb_false_r.
Qed.


(** ** The pulse loop *)

Section PulseLoop.

Variable w : World.
Variable direction : Z.
Variable stepDelay : float.

Let loop := internalMoveSteps_loop w direction stepDelay.

(** A run of the loop, whatever the switches say: its log is a
    sequence of uniform pulses, at most [k] of them, and the counter
    has been stepped once per pulse. *)
Lemma internalMoveSteps_loop_run (k : nat) (s : PiStepper) :
  exists evs,
    trace (loop k s) = trace s ++ evs /\
    uniform (half_delay stepDelay) evs /\
    (pulses evs <= k)%nat /\
    _currentStepCount (loop k s) =
      Nat.iter (pulses evs) (count_step direction) (_currentStepCount s) /\
    frame s (loop k s).
Proof.
  subst loop. revert s. induction k as [|k IH]; intros s.
  - exists []. simpl. rewrite app_nil_r.
    split; [reflexivity|]. split; [apply uniform_nil|]. split; [apply Nat.le_refl|].
    split; [reflexivity | apply frame_refl].
  - cbn [internalMoveSteps_loop]. unfold gpiod_line_get_value.
    set (top := line_value w limit_switch_top s).
    destruct ((top =? 0) && (direction =? 1)) eqn:Htop.
    + exists [GetValue limit_switch_top top; Cout "Top limit switch triggered"].
      split; [same_log|].
      split; [intros tl; reflexivity|].
      split; [cbn; lia|].
      split; [reflexivity | constructor; reflexivity].
    + set (s1 := emit (GetValue limit_switch_top top) (with_reads limit_switch_top s)).
      set (bottom := line_value w limit_switch_bottom s1).
      destruct ((bottom =? 0) && (direction =? 0)) eqn:Hbot.
      * exists [GetValue limit_switch_top top; GetValue limit_switch_bottom bottom;
                Cout "Bottom limit switch triggered"].
        split; [same_log|].
        split; [intros tl; reflexivity|].
        split; [cbn; lia|].
        split; [reflexivity | constructor; reflexivity].
      * set (s2 := emit (GetValue limit_switch_bottom bottom) (with_reads limit_switch_bottom s1)).
        set (s3 := pulse stepDelay s2).
        set (s4 := if direction =? 0 then _ else _).
        destruct (IH s4) as (evs & Htr & Hu & Hp & Hc & Hf).
        assert (Htr4 : trace s4 = trace s ++
                  [GetValue limit_switch_top top; GetValue limit_switch_bottom bottom]
                  ++ pulse_events stepDelay).
        { subst s4. destruct (direction =? 0); same_log. }
        assert (Hc4 : _currentStepCount s4 = count_step direction (_currentStepCount s)).
        { subst s4. unfold count_step. destruct (direction =? 0); reflexivity. }
        assert (Hf4 : frame s s4).
        { subst s4. destruct (direction =? 0); constructor; reflexivity. }
        exists (([GetValue limit_switch_top top; GetValue limit_switch_bottom bottom]
                  ++ pulse_events stepDelay) ++ evs).
        split; [rewrite Htr, Htr4, <- !app_assoc; reflexivity|].
        split; [apply uniform_app; [intros tl; reflexivity | exact Hu]|].
        rewrite pulses_app.
        change (pulses ([GetValue limit_switch_top top; GetValue limit_switch_bottom bottom]
                  ++ pulse_events stepDelay)) with 1%nat.
        split; [lia|].
        split; [|eapply frame_trans; eassumption].
        rewrite Hc, Hc4. change (1 + pulses evs)%nat with (S (pulses evs)).
        rewrite Nat.iter_succ_r. reflexivity.
Qed.

(** An unobstructed run takes every iteration: [k] pulses, and each
    switch has been read [k] more times. *)
Lemma internalMoveSteps_loop_full (k : nat) (s : PiStepper) :
  unobstructed w direction s k ->
  exists evs,
    trace (loop k s) = trace s ++ evs /\
    evs = full_log w stepDelay (top_reads s) (bottom_reads s) k /\
    top_reads (loop k s) = (top_reads s + k)%nat /\
    bottom_reads (loop k s) = (bottom_reads s + k)%nat.
Proof.
  subst loop. revert s. induction k as [|k IH]; intros s Hclear.
  - exists []. simpl. rewrite app_nil_r, !Nat.add_0_r. auto.
  - destruct (Hclear O ltac:(lia)) as [Ht Hb]. rewrite Nat.add_0_r in Ht, Hb.
    cbn [internalMoveSteps_loop]. unfold gpiod_line_get_value.
    cbn [line_value].
    rewrite (guard_false _ _ 1 Ht).
    cbn [bottom_reads with_reads emit].
    rewrite (guard_false _ _ 0 Hb).
    set (s4 := if direction =? 0 then _ else _).
    assert (Htr4 : trace s4 = trace s ++
              [GetValue limit_switch_top (top_at w (top_reads s));
               GetValue limit_switch_bottom (bottom_at w (bottom_reads s))]
              ++ pulse_events stepDelay).
    { subst s4. destruct (direction =? 0); same_log. }
    assert (Hr4 : top_reads s4 = S (top_reads s) /\ bottom_reads s4 = S (bottom_reads s)).
    { subst s4. destruct (direction =? 0); split; reflexivity. }
    destruct Hr4 as [Hrt Hrb].
    destruct (IH s4) as (evs & Htr & Hp & Htop & Hbot).
    { intros i Hi. rewrite Hrt, Hrb.
      replace (S (top_reads s) + i)%nat with (top_reads s + S i)%nat by lia.
      replace (S (bottom_reads s) + i)%nat with (bottom_reads s + S i)%nat by lia.
      apply Hclear. lia. }
    eexists. split; [rewrite Htr, Htr4, <- !app_assoc; reflexivity|].
    split; [|rewrite Htop, Hbot, Hrt, Hrb; lia].
    rewrite Hp, Hrt, Hrb. reflexivity.
Qed.

End PulseLoop.

(** *** [internalMoveSteps] and [moveSteps] as a whole *)

Lemma internalMoveSteps_run w steps direction s :
  exists evs,
    trace (internalMoveSteps w steps direction s) =
      trace s ++ [SetValue enable_signal 1; SetValue dir_signal direction]
              ++ evs ++ [SetValue enable_signal 0] /\
    uniform (half_delay (stepDelay_now s)) evs /\
    (pulses evs <= Z.to_nat steps)%nat /\
    _currentStepCount (internalMoveSteps w steps direction s) =
      Nat.iter (pulses evs) (count_step direction) (_currentStepCount s) /\
    (unobstructed w direction s (Z.to_nat steps) ->
       evs = full_log w (stepDelay_now s) (top_reads s) (bottom_reads s) (Z.to_nat steps) /\
       top_reads (internalMoveSteps w steps direction s) = (top_reads s + Z.to_nat steps)%nat /\
       bottom_reads (internalMoveSteps w steps direction s) = (bottom_reads s + Z.to_nat steps)%nat).
Proof.
  unfold internalMoveSteps.
  set (s2 := gpiod_line_set_value dir_signal direction (enable s)).
  set (h := stepDelay_of _ _ _).
  destruct (internalMoveSteps_loop_run w direction h (Z.to_nat steps) s2)
    as (evs & Htr & Hu & Hp & Hc & Hf).
  exists evs.
  split.
  { unfold disable, gpiod_line_set_value. cbn [trace emit with_level].
    rewrite Htr. subst s2. cbn. rewrite <- !app_assoc. reflexivity. }
  split; [exact Hu|].
  split; [exact Hp|].
  split; [exact Hc|].
  intros Hclear.
  destruct (internalMoveSteps_loop_full w direction h (Z.to_nat steps) s2 Hclear)
    as (evs' & Htr' & Hp' & Ht & Hb).
  rewrite Htr in Htr'. apply app_inv_head in Htr'. subst evs'.
  split; [exact Hp'|]. split; [exact Ht | exact Hb].
Qed.


Lemma pulses_moveSteps_log direction evs : pulses (moveSteps_log direction evs) = pulses evs.
Proof.
  unfold moveSteps_log. rewrite !pulses_app. change (pulses [LockGate; _; _]) with O.
  change (pulses [_; UnlockGate]) with O. lia.
Qed.

Lemma moveSteps_run w steps direction s :
  exists evs,
    trace (moveSteps w steps direction s) = trace s ++ moveSteps_log direction evs /\
    uniform (half_delay (stepDelay_now s)) evs /\
    (pulses evs <= Z.to_nat steps)%nat /\
    _currentStepCount (moveSteps w steps direction s) =
      Nat.iter (pulses evs) (count_step direction) (_currentStepCount s) /\
    (unobstructed w direction s (Z.to_nat steps) ->
       evs = full_log w (stepDelay_now s) (top_reads s) (bottom_reads s) (Z.to_nat steps) /\
       top_reads (moveSteps w steps direction s) = (top_reads s + Z.to_nat steps)%nat /\
       bottom_reads (moveSteps w steps direction s) = (bottom_reads s + Z.to_nat steps)%nat).
Proof.
  unfold moveSteps.
  set (s2 := with_moving true (lock_gpioMutex s)).
  destruct (internalMoveSteps_run w steps direction s2) as (evs & Htr & Hu & Hp & Hc & Hfull).
  exists evs.
  split.
  { cbn [unlock_gpioMutex emit with_moving trace]. rewrite Htr.
    subst s2. cbn [lock_gpioMutex emit with_moving trace]. unfold moveSteps_log.
    rewrite <- !app_assoc. cbn [app]. reflexivity. }
  split; [exact Hu|]. split; [exact Hp|]. split; [exact Hc|].
  exact Hfull.
Qed.


(** ** C1: the delay of a pulse *)

Lemma sixty_million : f64_mul (f64_of_int 60) (f64_of_int 1000000) = f64_of_int 60000000.
Proof. vm_compute. reflexivity. Qed.

Lemma internalMoveSteps_since w steps direction s :
  exists evs,
    since s (internalMoveSteps w steps direction s) =
      [SetValue enable_signal 1; SetValue dir_signal direction]
        ++ evs ++ [SetValue enable_signal 0] /\
    uniform (half_delay (stepDelay_now s)) (since s (internalMoveSteps w steps direction s)) /\
    pulses (since s (internalMoveSteps w steps direction s)) = pulses evs /\
    (pulses evs <= Z.to_nat steps)%nat.
Proof.
  destruct (internalMoveSteps_run w steps direction s) as (evs & Htr & Hu & Hp & _).
  exists evs. rewrite (since_app _ _ _ Htr).
  split; [reflexivity|].
  split.
  { apply uniform_app; [intros tl; reflexivity|].
    apply uniform_app; [exact Hu | intros tl; reflexivity]. }
  split; [|exact Hp].
  rewrite !pulses_app. change (pulses [SetValue enable_signal 1; _]) with O.
  change (pulses [SetValue enable_signal 0]) with O. lia.
Qed.

(** C1 (as amended): in every call of [internalMoveSteps] the delay is
    computed once, as 60,000,000 / (speed * stepsPerRevolution *
    microstepping) in floating point (product in binary32, quotient in
    binary64 narrowed to binary32), and every pulse of the move sleeps
    the same whole number of microseconds with the step line high and
    with it low: [stepDelay / 2] with its fraction dropped by the
    conversion to [useconds_t]. *)
Theorem C1_pulse_delay (w : World) (steps direction : Z) (s : PiStepper) :
  let stepDelay :=
    f32_of_f64
      (f64_div (f64_of_int 60000000)
         (f64_of_f32
            (f32_mul (f32_mul (_speed s) (f32_of_int (_stepsPerRevolution s)))
               (f32_of_int (_microstepping s))))) in
  let half := f32_to_uint (f32_div stepDelay (f32_of_int 2)) in
  let log := since s (internalMoveSteps w steps direction s) in
  pulse_train log = repeat (half, half) (pulses log).
Proof.
  cbv zeta. rewrite <- sixty_million.
  change (f32_of_f64 _) with (stepDelay_now s).
  change (f32_to_uint _) with (half_delay (stepDelay_now s)).
  destruct (internalMoveSteps_since w steps direction s) as (evs & _ & Hu & _).
  apply uniform_train. exact Hu.
Qed.

(** C1 as the specification states it fails on the defaults of the
    constructor (20 RPM, 200 steps, 8 microsteps): the delay is 1875
    microseconds, each half would be 937.5, and the one pulse of
    [internalMoveSteps(1, 1)] sleeps 937 and 937. *)
Lemma C1_counterexample :
  pulse_train (since default_stepper (internalMoveSteps clear_world 1 1 default_stepper))
    = [(937, 937)] /\
  (f32_value (_speed default_stepper) == 20)%Q /\
  (spec_pulse_delay 20 200 8 == 1875)%Q /\
  ~ spec_pulse (f32_value (_speed default_stepper))
      (_stepsPerRevolution default_stepper) (_microstepping default_stepper)
      (937, 937).
Proof.
  split; [vm_compute; reflexivity|].
  split; [vm_compute; reflexivity|].
  split; [vm_compute; reflexivity|].
  intros [H _]. vm_compute in H. discriminate H.
Qed.

(** ** C2 and C3: the position counter *)

Lemma iter_round_trip n c :
  in_int c ->
  Nat.iter n (count_step 0) (Nat.iter n (count_step 1) c) = c.
Proof.
  intros Hc.
  rewrite (iter_count_wrap 1 n c Hc). cbn [Z.eqb].
  rewrite (iter_count_wrap 0 n _ (wrap32_range _)). cbn [Z.eqb].
  replace (wrap32 (c + Z.of_nat n) - Z.of_nat n)
    with (wrap32 (c + Z.of_nat n) + - Z.of_nat n) by lia.
  rewrite wrap32_add_l.
  replace (c + Z.of_nat n + - Z.of_nat n) with c by lia.
  apply wrap32_id. exact Hc.
Qed.

(** C2: [moveSteps(n, 1)] then [moveSteps(n, 0)], when no switch on
    the side of travel reports 0 during either call, puts
    [_currentStepCount] back to its value before the first call. *)
Theorem C2_round_trip (w : World) (n : Z) (s : PiStepper) :
  in_int (_currentStepCount s) ->
  unobstructed w 1 s (Z.to_nat n) ->
  unobstructed w 0 (moveSteps w n 1 s) (Z.to_nat n) ->
  _currentStepCount (moveSteps w n 0 (moveSteps w n 1 s)) = _currentStepCount s.
Proof.
  intros Hc Hfwd Hback.
  destruct (moveSteps_run w n 1 s) as (evs1 & _ & _ & _ & Hc1 & Hfull1).
  destruct (Hfull1 Hfwd) as (Hp1 & _).
  set (s1 := moveSteps w n 1 s) in *.
  destruct (moveSteps_run w n 0 s1) as (evs2 & _ & _ & _ & Hc2 & Hfull2).
  destruct (Hfull2 Hback) as (Hp2 & _).
  rewrite Hc2, Hc1, Hp1, Hp2, !pulses_full_log. apply iter_round_trip. exact Hc.
Qed.

Lemma C2_round_trip_witness :
  _currentStepCount (moveSteps clear_world 3 0 (moveSteps clear_world 3 1 default_stepper))
  = _currentStepCount default_stepper.
Proof.
  apply (C2_round_trip clear_world 3 default_stepper).
  - vm_compute. split; discriminate.
  - intros i _. split; intros _; cbn; discriminate.
  - intros i _. split; intros _; cbn; discriminate.
Defined.

(** C3: when the switch on the side of travel already reads 0 at the
    first check of [moveSteps(n, d)], d in {0, 1}, no pulse is issued
    and [_currentStepCount] is unchanged. *)
Theorem C3_blocked_at_start (w : World) (n d : Z) (s : PiStepper) :
  (d = 1 /\ top_at w (top_reads s) = 0) \/
  (d = 0 /\ bottom_at w (bottom_reads s) = 0) ->
  pulses (since s (moveSteps w n d s)) = O /\
  pulse_train (since s (moveSteps w n d s)) = [] /\
  _currentStepCount (moveSteps w n d s) = _currentStepCount s.
Proof.
  intros H.
  assert (Hlog : exists evs,
            trace (moveSteps w n d s) = trace s ++ evs /\ pulses evs = O /\
            pulse_train evs = [] /\
            _currentStepCount (moveSteps w n d s) = _currentStepCount s).
  { unfold moveSteps, internalMoveSteps.
    destruct (Z.to_nat n) as [|k].
    - eexists. split; [same_log|].
      split; [reflexivity|]. split; reflexivity.
    - cbn [internalMoveSteps_loop]. unfold gpiod_line_get_value.
      destruct H as [[-> Ht] | [-> Hb]].
      + cbn [line_value top_reads with_moving lock_gpioMutex emit enable
             gpiod_line_set_value with_level].
        rewrite Ht. cbn [Z.eqb andb].
        eexists. split; [same_log|].
        split; [reflexivity|]. split; reflexivity.
      + cbn [line_value top_reads bottom_reads with_moving lock_gpioMutex emit enable
             gpiod_line_set_value with_level with_reads].
        rewrite Hb. rewrite andb_false_r. cbn [Z.eqb andb].
        eexists. split; [same_log|].
        split; [reflexivity|]. split; reflexivity. }
  destruct Hlog as (evs & Htr & Hp & Hpt & Hc).
  rewrite (since_app _ _ _ Htr). auto.
Qed.

Lemma C3_blocked_at_start_witness :
  pulses (since default_stepper (moveSteps top_blocked_world 5 1 default_stepper)) = O /\
  pulse_train (since default_stepper (moveSteps top_blocked_world 5 1 default_stepper)) = [] /\
  _currentStepCount (moveSteps top_blocked_world 5 1 default_stepper)
  = _currentStepCount default_stepper.
Proof.
  apply (C3_blocked_at_start top_blocked_world 5 1 default_stepper).
  left. split; reflexivity.
Defined.

(** ** C4: homing *)

Section Homing.

Variable w : World.
Variable stepDelay : float.

Lemma homeMotor_body_count s :
  _currentStepCount (homeMotor_body stepDelay s) = _currentStepCount s.
Proof. reflexivity. Qed.

(** More fuel does not change the answer of the loop. *)
Lemma homeMotor_loop_more_fuel (fuel fuel' : nat) (s s' : PiStepper) :
  homeMotor_loop w stepDelay fuel s = Some s' -> (fuel <= fuel')%nat ->
  homeMotor_loop w stepDelay fuel' s = Some s'.
Proof.
  revert fuel' s. induction fuel as [|fuel IH]; intros fuel' s H Hle.
  - discriminate H.
  - destruct fuel' as [|fuel']; [lia|].
    cbn [homeMotor_loop] in *. unfold gpiod_line_get_value in *.
    destruct (line_value w limit_switch_bottom s =? 1).
    + apply IH; [exact H | lia].
    + exact H.
Qed.

(** Whenever the loop ends, it has left [_currentStepCount] and the
    configuration alone. *)
Lemma homeMotor_loop_frame (fuel : nat) (s s' : PiStepper) :
  homeMotor_loop w stepDelay fuel s = Some s' ->
  _currentStepCount s' = _currentStepCount s /\ frame s s'.
Proof.
  revert s. induction fuel as [|fuel IH]; intros s H.
  - discriminate H.
  - cbn [homeMotor_loop] in H. unfold gpiod_line_get_value in H.
    destruct (line_value w limit_switch_bottom s =? 1).
    + apply IH in H. destruct H as [Hc Hf]. split; [exact Hc|].
      eapply frame_trans; [|exact Hf]. constructor; reflexivity.
    + injection H as <-. split; [reflexivity | constructor; reflexivity].
Qed.

(** If the bottom switch stops reporting 1 at some later read, the
    loop ends, with fuel for one iteration per read. *)
Lemma homeMotor_loop_ends (k : nat) (s : PiStepper) :
  bottom_at w (bottom_reads s + k) <> 1 ->
  exists s', homeMotor_loop w stepDelay (S k) s = Some s'.
Proof.
  revert s. induction k as [|k IH]; intros s Hk.
  - rewrite Nat.add_0_r in Hk. cbn [homeMotor_loop]. unfold gpiod_line_get_value.
    cbn [line_value]. apply Z.eqb_neq in Hk. rewrite Hk. eauto.
  - remember (S k) as fuel. cbn [homeMotor_loop]. unfold gpiod_line_get_value.
    cbn [line_value]. destruct (bottom_at w (bottom_reads s) =? 1); [|eauto].
    subst fuel. apply IH.
    cbn [bottom_reads homeMotor_body pulse usleep gpiod_line_set_value emit
         with_level with_reads].
    replace (S (bottom_reads s) + k)%nat with (bottom_reads s + S k)%nat by lia.
    exact Hk.
Qed.

End Homing.

(** C4: [homeMotor()], when the bottom switch eventually stops
    reporting 1, returns; it returns with [_currentStepCount] equal to
    0 and the enable line at 0 whatever the counter was before; and the
    pulse loop itself never writes the counter (its body keeps it, and
    the state at the exit of the loop still holds the value from
    before the call). *)
Theorem C4_homeMotor (w : World) (s : PiStepper) :
  (exists k, bottom_at w (bottom_reads s + k) <> 1) ->
  exists fuel s3 s',
    homeMotor_loop w (stepDelay_now s) fuel
      (gpiod_line_set_value dir_signal 0 (enable s)) = Some s3 /\
    _currentStepCount s3 = _currentStepCount s /\
    (forall stepDelay s0,
       _currentStepCount (homeMotor_body stepDelay s0) = _currentStepCount s0) /\
    (forall fuel', (fuel <= fuel')%nat -> homeMotor w fuel' s = Some s') /\
    _currentStepCount s' = 0 /\
    enable_level s' = 0 /\
    last (trace s') UnlockGate = SetValue enable_signal 0.
Proof.
  intros [k Hk].
  set (s2 := gpiod_line_set_value dir_signal 0 (enable s)).
  destruct (homeMotor_loop_ends w (stepDelay_now s) k s2 Hk) as [s3 Hloop].
  destruct (homeMotor_loop_frame _ _ _ _ _ Hloop) as [Hc _].
  exists (S k), s3, (disable (with_count 0 s3)).
  split; [exact Hloop|].
  split; [exact Hc|].
  split; [exact homeMotor_body_count|].
  split.
  { intros fuel' Hle. unfold homeMotor.
    change (stepDelay_of _ _ _) with (stepDelay_now s). fold s2.
    rewrite (homeMotor_loop_more_fuel _ _ _ _ _ _ Hloop Hle). reflexivity. }
  split; [reflexivity|]. split; [reflexivity|].
  cbn [disable gpiod_line_set_value emit with_level trace with_count].
  apply last_last.
Qed.

Lemma C4_homeMotor_witness :
  exists fuel s3 s',
    homeMotor_loop homing_world (stepDelay_now default_stepper) fuel
      (gpiod_line_set_value dir_signal 0 (enable default_stepper)) = Some s3 /\
    _currentStepCount s3 = _currentStepCount default_stepper /\
    (forall stepDelay s0,
       _currentStepCount (homeMotor_body stepDelay s0) = _currentStepCount s0) /\
    (forall fuel', (fuel <= fuel')%nat -> homeMotor homing_world fuel' default_stepper = Some s') /\
    _currentStepCount s' = 0 /\
    enable_level s' = 0 /\
    last (trace s') UnlockGate = SetValue enable_signal 0.
Proof.
  apply (C4_homeMotor homing_world default_stepper).
  exists 2%nat. vm_compute. discriminate.
Defined.

(** ** C9: emergency stop *)

(** C9: [emergencyStop()], from any state, leaves the enable line at
    0, [_isMoving] false and [_currentStepCount] at 0. *)
Theorem C9_emergencyStop (s : PiStepper) :
  enable_level (emergencyStop s) = 0 /\
  _isMoving (emergencyStop s) = false /\
  _currentStepCount (emergencyStop s) = 0 /\
  since s (emergencyStop s) =
    [LockGate; SetValue enable_signal 0; Cout "Emergency Stop Activated!"; UnlockGate].
Proof.
  repeat split.
  apply since_app. cbn. rewrite <- !app_assoc. reflexivity.
Qed.

(** ** C10: directions other than 0 and 1 *)

Lemma unobstructed_other_direction w d s k : d <> 0 -> d <> 1 -> unobstructed w d s k.
Proof. intros H0 H1 i _. split; intros E; contradiction. Qed.

(** C10 (as amended): for [moveSteps(n, d)] with n > 0 and d outside
    {0, 1}, both limit switches are still read before every pulse,
    but no reading can stop the move: whatever the switches report,
    the log is that of n full iterations, n pulses are issued and
    [_currentStepCount] goes up by n (d <> 0 counts as forward). *)
Theorem C10_other_direction (w : World) (n d : Z) (s : PiStepper) :
  0 < n -> d <> 0 -> d <> 1 -> in_int (_currentStepCount s) ->
  let s' := moveSteps w n d s in
  since s s' =
    moveSteps_log d
      (full_log w (stepDelay_now s) (top_reads s) (bottom_reads s) (Z.to_nat n)) /\
  pulses (since s s') = Z.to_nat n /\
  limit_reads (since s s') = (2 * Z.to_nat n)%nat /\
  _currentStepCount s' = wrap32 (_currentStepCount s + n) /\
  (_currentStepCount s + n <= INT_MAX -> _currentStepCount s' = _currentStepCount s + n).
Proof.
  intros Hn Hd0 Hd1 Hc s'. subst s'.
  destruct (moveSteps_run w n d s) as (evs & Hlog & _ & _ & Hcount & Hfull).
  destruct (Hfull (unobstructed_other_direction w d s _ Hd0 Hd1)) as (Hevs & _).
  subst evs. rewrite (since_app _ _ _ Hlog).
  assert (Hfinal : _currentStepCount (moveSteps w n d s) = wrap32 (_currentStepCount s + n)).
  { rewrite Hcount, pulses_full_log, (iter_count_wrap d _ _ Hc).
    apply Z.eqb_neq in Hd0. rewrite Hd0. rewrite Z2Nat.id by lia. reflexivity. }
  split; [reflexivity|].
  split; [rewrite pulses_moveSteps_log; apply pulses_full_log|].
  split.
  { unfold moveSteps_log, limit_reads. rewrite !filter_app, !length_app.
    fold (limit_reads (full_log w (stepDelay_now s) (top_reads s) (bottom_reads s) (Z.to_nat n))).
    rewrite limit_reads_full_log. cbn. lia. }
  split; [exact Hfinal|].
  intros Hmax. rewrite Hfinal. apply wrap32_id.
  unfold in_int, INT_MIN, INT_MAX in *. lia.
Qed.

Lemma C10_other_direction_witness :
  let s' := moveSteps top_blocked_world 3 2 default_stepper in
  since default_stepper s' =
    moveSteps_log 2
      (full_log top_blocked_world (stepDelay_now default_stepper)
         (top_reads default_stepper) (bottom_reads default_stepper) (Z.to_nat 3)) /\
  pulses (since default_stepper s') = Z.to_nat 3 /\
  limit_reads (since default_stepper s') = (2 * Z.to_nat 3)%nat /\
  _currentStepCount s' = wrap32 (_currentStepCount default_stepper + 3) /\
  (_currentStepCount default_stepper + 3 <= INT_MAX ->
   _currentStepCount s' = _currentStepCount default_stepper + 3).
Proof.
  apply (C10_other_direction top_blocked_world 3 2 default_stepper).
  - lia.
  - discriminate.
  - discriminate.
  - vm_compute. split; discriminate.
Defined.

(** C10 as stated fails: with d = 2 the engine does read both limit
    switches before the pulse; here is the log of [moveSteps(1, 2)]. *)
Lemma C10_counterexample :
  since default_stepper (moveSteps clear_world 1 2 default_stepper) =
    [ LockGate; SetValue enable_signal 1; SetValue dir_signal 2;
      GetValue limit_switch_top 1; GetValue limit_switch_bottom 1;
      SetValue step_signal 1; Usleep 937; SetValue step_signal 0; Usleep 937;
      SetValue enable_signal 0; UnlockGate ] /\
  limit_reads (since default_stepper (moveSteps clear_world 1 2 default_stepper)) <> O.
Proof. split; [vm_compute; reflexivity | vm_compute; discriminate]. Qed.

(** ** C6: angles

    Exhaustive checks over a range of integers come first. *)










(** ** C7: configuration *)



(** ** C8: moves over a duration *)


(** 1600 steps in 2 seconds at 200 x 8 is 30 RPM, exactly. *)
Example moveStepsOverDuration_30rpm :
  _speed (moveStepsOverDuration clear_world 1600 2 default_stepper) = f32_of_int 30.
Proof. vm_compute. reflexivity. Qed.

(** ** C5: the gate *)

(** The log of a homing loop holds reads of the bottom switch and
    pulses, and no gate event. *)
Lemma homeMotor_loop_log w stepDelay fuel : forall s s',
  homeMotor_loop w stepDelay fuel s = Some s' ->
  exists evs, trace s' = trace s ++ evs /\ ~ In LockGate evs.
Proof.
  induction fuel as [|fuel IH]; intros s s' H.
  - discriminate H.
  - cbn [homeMotor_loop] in H. unfold gpiod_line_get_value in H.
    destruct (line_value w limit_switch_bottom s =? 1).
    + apply IH in H. destruct H as (evs & Htr & Hfree).
      exists (GetValue limit_switch_bottom (line_value w limit_switch_bottom s)
                :: pulse_events stepDelay ++ evs).
      split.
      * rewrite Htr. cbn. rewrite <- !app_assoc. reflexivity.
      * cbn. intros [E|[E|[E|[E|[E|E]]]]]; try discriminate E. exact (Hfree E).
    + injection H as <-.
      exists [GetValue limit_switch_bottom (line_value w limit_switch_bottom s)].
      split; [reflexivity|]. cbn. intros [E|[]]. discriminate E.
Qed.

Lemma last_moveSteps_log direction evs :
  last (moveSteps_log direction evs) LockGate = UnlockGate.
Proof.
  unfold moveSteps_log.
  replace ([LockGate; SetValue enable_signal 1; SetValue dir_signal direction]
             ++ evs ++ [SetValue enable_signal 0; UnlockGate])
    with (([LockGate; SetValue enable_signal 1; SetValue dir_signal direction]
             ++ evs ++ [SetValue enable_signal 0]) ++ [UnlockGate]).
  - apply last_last.
  - rewrite <- !app_assoc. reflexivity.
Qed.

(** C5, where the code departs from it: a [homeMotor()] call that
    returns has driven the enable, direction and step lines without
    ever taking [gpioMutex] (no lock event in its log), whereas the log
    of [moveSteps] opens with the lock and closes with the unlock. *)
Theorem C5_homeMotor_skips_gate (w : World) (fuel : nat) (s s' : PiStepper) :
  homeMotor w fuel s = Some s' ->
  ~ In LockGate (since s s') /\
  hd_error (since s s') = Some (SetValue enable_signal 1) /\
  (forall steps direction,
     hd_error (since s (moveSteps w steps direction s)) = Some LockGate /\
     last (since s (moveSteps w steps direction s)) LockGate = UnlockGate).
Proof.
  intros H. unfold homeMotor in H.
  set (s2 := gpiod_line_set_value dir_signal 0 (enable s)) in H.
  destruct (homeMotor_loop w _ fuel s2) as [s3|] eqn:Hloop; [|discriminate H].
  injection H as <-.
  destruct (homeMotor_loop_log _ _ _ _ _ Hloop) as (evs & Htr & Hfree).
  assert (Hlog : since s (disable (with_count 0 s3)) =
                 [SetValue enable_signal 1; SetValue dir_signal 0] ++ evs
                   ++ [SetValue enable_signal 0]).
  { apply since_app. cbn [disable gpiod_line_set_value emit with_level with_count trace].
    rewrite Htr. subst s2. cbn. rewrite <- !app_assoc. reflexivity. }
  rewrite Hlog.
  split.
  { cbn. intros [E|[E|E]]; try discriminate E.
    apply in_app_or in E. destruct E as [E|[E|[]]]; [exact (Hfree E) | discriminate E]. }
  split; [reflexivity|].
  intros steps direction.
  destruct (moveSteps_run w steps direction s) as (evs' & Htr' & _).
  rewrite (since_app _ _ _ Htr'). unfold moveSteps_log.
  split; [reflexivity | apply last_moveSteps_log].
Qed.

(** The failing input: homing on a fresh object while the bottom
    switch reads 1, 1, 0 issues two pulses outside the gate. *)
Lemma C5_homeMotor_skips_gate_witness :
  match homeMotor homing_world 3 default_stepper with
  | Some s' =>
      pulses (since default_stepper s') = 2%nat /\
      ~ In LockGate (since default_stepper s')
  | None => False
  end.
Proof.
  destruct (homeMotor homing_world 3 default_stepper) as [s'|] eqn:E.
  - split.
    + vm_compute in E. injection E as <-. vm_compute. reflexivity.
    + exact (proj1 (C5_homeMotor_skips_gate homing_world 3 default_stepper s' E)).
  - vm_compute in E. discriminate E.
Defined.
